(** * postboard (pb): a key-value client over one MySQL table

    Shallow embedding of [main.go].  The program keeps no data of its own:
    every operation is one SQL statement sent to the database behind the
    global handle [db].  The embedding therefore has two layers.

    - [Sql]: the part of the database engine the statements rely on, the
      content of table [postboard_kvs] as a list of rows in scan order,
      column widths, the primary key, and the [LIKE] matcher.
    - the functions of [main.go] under their own names ([prepareDatabase],
      [putKeyValue], [getKey], [listKeysWithPrefix]) and the [Func] bodies of
      the commands [set], [get] and [del], written as state passing over the
      database.

    Conventions.
    - A Go [string] is a [string] of bytes, a Go [[]byte] is a [list byte].
    - A Go result [(x, err)] is a pair whose second component is an
      [option error]; [None] is [nil].
    - Connection failures are outside the model: the server answers every
      statement.  It runs in strict SQL mode (its default), so a value that
      does not fit its column is refused with error 1406.
    - Column [k] holds text in the server's default character set utf8mb4:
      [VARCHAR(255)] counts characters, not bytes, and a key that is not
      well-formed UTF-8 is refused with error 1366.
    - The collation of column [k] is chosen by the server, not by
      [main.go]; it is a parameter [weight] of the development, and every
      theorem holds for each collation of that shape. *)

From Stdlib Require Import List String Ascii ZArith Bool Arith Lia.
From Stdlib Require Import Strings.Byte.
Import ListNotations.

Local Open Scope string_scope.
Local Open Scope Z_scope.

(** ** Go values *)

(** Errors the program can return. *)
Inductive error : Type :=
| ErrNoRows                       (* sql.ErrNoRows: QueryRow found no row *)
| MySQLError (number : Z)         (* an error reported by the server *)
| Errorf (msg : string).          (* fmt.Errorf(msg) *)

(** ["\n"] *)
Definition nl : string := String (ascii_of_nat 10) EmptyString.

(** [[]byte(s)] and [string(b)]. *)
Definition bytes_of_string (s : string) : list byte := list_byte_of_string s.
Definition string_of_bytes (b : list byte) : string := string_of_list_byte b.

(** [len(s)] *)
Definition len (s : string) : Z := Z.of_nat (String.length s).

(** [s[len(s)-1]], defined for a non-empty [s]. *)
Fixpoint last_byte (s : string) : option ascii :=
  match s with
  | EmptyString => None
  | String c EmptyString => Some c
  | String _ s' => last_byte s'
  end.

(** [s[:len(s)-1]] *)
Fixpoint drop_last (s : string) : string :=
  match s with
  | EmptyString => EmptyString
  | String _ EmptyString => EmptyString
  | String c s' => String c (drop_last s')
  end.

(** [strings.HasPrefix(s, p)], byte for byte. *)
Definition has_prefix (p s : string) : bool := String.prefix p s.

(** The same on byte slices. *)
Fixpoint bytes_has_prefix (p b : list byte) : bool :=
  match p, b with
  | [], _ => true
  | _ :: _, [] => false
  | x :: p', y :: b' => Byte.eqb x y && bytes_has_prefix p' b'
  end.

(** ** The database engine *)

Module Sql.

(** Server error numbers. *)
Definition ER_NO_SUCH_TABLE : Z := 1146.
Definition ER_DATA_TOO_LONG : Z := 1406.
Definition ER_TRUNCATED_WRONG_VALUE_FOR_FIELD : Z := 1366.

(** Column widths: [VARCHAR(255)] and [BLOB]. *)
Definition varchar_k : Z := 255.
Definition blob_max : Z := 65535.

(** The wildcard and escape characters of [LIKE]. *)
Definition w_many : ascii := "%"%char.
Definition w_one : ascii := "_"%char.
Definition escape : ascii := "\"%char.

(** Two collations: byte-wise, and ASCII case-insensitive (a lower-case
    letter weighs as its capital). *)
Definition binary (c : ascii) : ascii := c.

Definition ascii_ci (c : ascii) : ascii :=
  let n := nat_of_ascii c in
  if (97 <=? n)%nat && (n <=? 122)%nat then ascii_of_nat (n - 32) else c.

(** *** Text in utf8mb4 *)

Definition in_range (lo hi : N) (c : ascii) : bool :=
  ((lo <=? N_of_ascii c) && (N_of_ascii c <=? hi))%N.

(** A continuation byte, [10xxxxxx]. *)
Definition continuation (c : ascii) : bool := in_range 128 191 c.

(** Well-formed UTF-8: one byte below 128, or a lead byte followed by its
    one, two or three continuation bytes, without overlong forms,
    surrogates, or code points above U+10FFFF. *)
Fixpoint utf8_valid (s : string) : bool :=
  match s with
  | EmptyString => true
  | String b0 s1 =>
      if in_range 0 127 b0 then utf8_valid s1
      else if in_range 194 223 b0 then
        match s1 with
        | String b1 s2 => continuation b1 && utf8_valid s2
        | _ => false
        end
      else if in_range 224 239 b0 then
        match s1 with
        | String b1 (String b2 s3) =>
            in_range (if in_range 224 224 b0 then 160 else 128)
                     (if in_range 237 237 b0 then 159 else 191) b1
            && continuation b2 && utf8_valid s3
        | _ => false
        end
      else if in_range 240 244 b0 then
        match s1 with
        | String b1 (String b2 (String b3 s4)) =>
            in_range (if in_range 240 240 b0 then 144 else 128)
                     (if in_range 244 244 b0 then 143 else 191) b1
            && continuation b2 && continuation b3 && utf8_valid s4
        | _ => false
        end
      else false
  end.

(** The number of characters of a text: its bytes that start a character. *)
Fixpoint char_count (s : string) : Z :=
  match s with
  | EmptyString => 0
  | String c s' => (if continuation c then 0 else 1) + char_count s'
  end.

(** A row of [postboard_kvs]. *)
Record Row : Type := {
  k : string;             (* VARCHAR(255) NOT NULL, PRIMARY KEY *)
  v : list byte;          (* BLOB NOT NULL *)
  created_at : Z          (* TIMESTAMP NOT NULL DEFAULT CURRENT_TIMESTAMP *)
}.

Definition set_v (value : list byte) (r : Row) : Row :=
  {| k := k r; v := value; created_at := created_at r |}.

(** The rows of the table, in the order a scan meets them: the order of
    the primary key. *)
Definition Table : Type := list Row.

(** The database: table [postboard_kvs], once it has been created. *)
Record DB : Type := { postboard_kvs : option Table }.

Section Collation.

(** [weight c] is the sort weight of character [c]; two characters are
    equal under the collation when their weights are. *)
Variable weight : ascii -> ascii.

Fixpoint sort_key (s : string) : string :=
  match s with
  | EmptyString => EmptyString
  | String c s' => String (weight c) (sort_key s')
  end.

(** [a = b] on the key column. *)
Definition key_eqb (a b : string) : bool :=
  String.eqb (sort_key a) (sort_key b).

Definition char_eqb (a b : ascii) : bool :=
  Ascii.eqb (weight a) (weight b).

(** [a < b] on the key column: the order of the primary key. *)
Definition key_ltb (a b : string) : bool :=
  String.ltb (sort_key a) (sort_key b).

(** [s LIKE pat]: [%] stands for any run of characters, [_] for one
    character, the escape character makes the next pattern character
    literal (and is literal itself at the end of the pattern). *)
Fixpoint like (pat s : string) {struct pat} : bool :=
  match pat with
  | EmptyString =>
      match s with EmptyString => true | String _ _ => false end
  | String p pat' =>
      if Ascii.eqb p w_many then
        (fix skip (t : string) : bool :=
           like pat' t
           || match t with
              | EmptyString => false
              | String _ t' => skip t'
              end) s
      else if Ascii.eqb p w_one then
        match s with
        | EmptyString => false
        | String _ s' => like pat' s'
        end
      else if Ascii.eqb p escape then
        match pat' with
        | EmptyString =>
            match s with
            | String c EmptyString => char_eqb p c
            | _ => false
            end
        | String q pat'' =>
            match s with
            | EmptyString => false
            | String c s' => char_eqb q c && like pat'' s'
            end
        end
      else
        match s with
        | EmptyString => false
        | String c s' => char_eqb p c && like pat' s'
        end
  end.

(** *** The statements of [main.go] *)

(** [key LIKE pat] decides [WHERE k LIKE ?]; [key_eqb] decides
    [WHERE k = ?] and the primary key. *)

Definition has_key (key : string) (t : Table) : bool :=
  existsb (fun r => key_eqb (k r) key) t.

(** [UPDATE v = VALUES(v)] on the row that holds the key. *)
Definition update_v (key : string) (value : list byte) (t : Table) : Table :=
  map (fun r => if key_eqb (k r) key then set_v value r else r) t.

(** A new row: [k] and [v] as given, [created_at] by its default
    [CURRENT_TIMESTAMP].  The row takes its place in the order of the
    primary key, before the first row with a greater key. *)
Fixpoint insert_row (now : Z) (key : string) (value : list byte)
         (t : Table) : Table :=
  match t with
  | [] => [ {| k := key; v := value; created_at := now |} ]
  | r :: t' =>
      if key_ltb key (k r)
      then {| k := key; v := value; created_at := now |} :: r :: t'
      else r :: insert_row now key value t'
  end.

(** [INSERT INTO postboard_kvs (k, v) VALUES (?, ?)
     ON DUPLICATE KEY UPDATE v = VALUES(v)] *)
Definition insert_on_duplicate_key_update
           (now : Z) (key : string) (value : list byte) (t : Table) : Table :=
  if has_key key t then update_v key value t
  else insert_row now key value t.

(** Strict mode: the values must fit columns [k] (in characters) and [v]
    (in bytes). *)
Definition fits (key : string) (value : list byte) : bool :=
  (char_count key <=? varchar_k)
  && (Z.of_nat (List.length value) <=? blob_max).

Definition exec_insert (now : Z) (key : string) (value : list byte)
           (d : DB) : DB * option error :=
  match postboard_kvs d with
  | None => (d, Some (MySQLError ER_NO_SUCH_TABLE))
  | Some t =>
      if negb (utf8_valid key)
      then (d, Some (MySQLError ER_TRUNCATED_WRONG_VALUE_FOR_FIELD))
      else if fits key value
      then ({| postboard_kvs :=
                 Some (insert_on_duplicate_key_update now key value t) |},
            None)
      else (d, Some (MySQLError ER_DATA_TOO_LONG))
  end.

(** [SELECT v FROM postboard_kvs WHERE k = ?] *)
Definition select_v (key : string) (t : Table) : list (list byte) :=
  map v (filter (fun r => key_eqb (k r) key) t).

Definition query_select_v (key : string) (d : DB)
  : list (list byte) * option error :=
  match postboard_kvs d with
  | None => ([], Some (MySQLError ER_NO_SUCH_TABLE))
  | Some t => (select_v key t, None)
  end.

(** [SELECT k FROM postboard_kvs WHERE k LIKE ? LIMIT 1000] *)
Definition select_k_like (pat : string) (t : Table) : list string :=
  firstn 1000 (map k (filter (fun r => like pat (k r)) t)).

Definition query_select_k_like (pat : string) (d : DB)
  : list string * option error :=
  match postboard_kvs d with
  | None => ([], Some (MySQLError ER_NO_SUCH_TABLE))
  | Some t => (select_k_like pat t, None)
  end.

End Collation.

(** [CREATE TABLE IF NOT EXISTS postboard_kvs (...)] *)
Definition exec_create_table (d : DB) : DB * option error :=
  match postboard_kvs d with
  | None => ({| postboard_kvs := Some [] |}, None)
  | Some _ => (d, None)
  end.

End Sql.

Import Sql.

(** ** Stores used in the examples *)

Definition row (key value : string) (t : Z) : Row :=
  {| k := key; v := bytes_of_string value; created_at := t |}.

(** No table yet, and the table just created. *)
Definition no_table : DB := {| postboard_kvs := None |}.
Definition empty_table : DB := {| postboard_kvs := Some [] |}.

Definition ax_bx : DB :=
  {| postboard_kvs := Some [row "ax" "1" 1; row "bx" "2" 2] |}.
Definition fruit : DB :=
  {| postboard_kvs := Some [row "apple" "red" 1] |}.
Definition foo_bar : DB :=
  {| postboard_kvs := Some [row "foo" "bar" 1] |}.

(** [strings.Repeat("a", 256)]: one character more than column [k] takes. *)
Definition key256 : string := string_of_list_ascii (repeat "a"%char 256).

(** ** main.go *)

Section Postboard.

Variable weight : ascii -> ascii.

Definition prepareDatabase (db : DB) : DB * option error :=
  exec_create_table db.

(** [now] is the server's clock when the statement runs. *)
Definition putKeyValue (now : Z) (key : string) (value : list byte) (db : DB)
  : DB * option error :=
  exec_insert weight now key value db.

(** [QueryRow(...).Scan(&value)]: the first row of the answer, or
    [sql.ErrNoRows] when there is none; [value] stays [nil] on an error. *)
Definition getKey (key : string) (db : DB) : list byte * option error :=
  match query_select_v weight key db with
  | (_, Some err) => ([], Some err)
  | ([], None) => ([], Some ErrNoRows)
  | (value :: _, None) => (value, None)
  end.

Definition listKeysWithPrefix (prefix : string) (db : DB)
  : list string * option error :=
  match query_select_k_like weight (prefix ++ "%") db with
  | (_, Some err) => ([], Some err)
  | (rows, None) =>
      (fold_left (fun keys key => (keys ++ [key])%list) rows [], None)
  end.

(** *** The commands

    A command's [Func] is run on the database and yields the database
    afterwards, what it printed on standard output, and its error. *)

Definition Result : Type := DB * string * option error.

(** [set]: [key] and [value] are [c.Arg("key").String()] and
    [c.Arg("value").String()] (empty when the argument is absent);
    [scanned] is the word [fmt.Scanln(&value)] reads. *)
Definition set_Func (now : Z) (scanned : string) (key value : string)
           (db : DB) : Result :=
  if String.eqb key "" then (db, "", Some (Errorf "key is empty"))
  else
    let value := if String.eqb value "" then scanned else value in
    let (db', err) := putKeyValue now key (bytes_of_string value) db in
    (db', "", err).

(** The loop [for _, key := range keys] of [get]. *)
Fixpoint print_keys (keysOnly : bool) (keys : list string) (db : DB)
  : string * option error :=
  match keys with
  | [] => ("", None)
  | key :: rest =>
      if keysOnly then
        let (out, err) := print_keys keysOnly rest db in
        (key ++ nl ++ out, err)
      else
        match getKey key db with
        | (_, Some err) => ("", Some err)
        | (val, None) =>
            let (out, err) := print_keys keysOnly rest db in
            (key ++ "=" ++ string_of_bytes val ++ nl ++ out, err)
        end
  end.

Definition get_Func (keysOnly : bool) (key : string) (db : DB) : Result :=
  if String.eqb key "" then (db, "", Some (Errorf "key is empty"))
  else
    match last_byte key with
    | Some "*"%char =>
        match listKeysWithPrefix (drop_last key) db with
        | (_, Some err) => (db, "", Some err)
        | (keys, None) =>
            let (out, err) := print_keys keysOnly keys db in
            (db, out, err)
        end
    | _ =>
        match getKey key db with
        | (_, Some err) => (db, "", Some err)
        | (val, None) => (db, string_of_bytes val ++ nl, None)
        end
    end.

(** gcli's [c.BoolOpt(p, name, shorts, defVal, desc)] registers the option
    with the standard [flag.BoolVar], which stores [defVal] in [*p]. *)
Definition BoolOpt (p : bool) (defVal : bool) : bool := defVal.

(** Parsing the command line: an option that is given, as [-k] ([Some
    true]) or [-k=b] ([Some b]), is stored; otherwise [*p] is left as
    it is. *)
Definition parse_opt (p : bool) (given : option bool) : bool :=
  match given with
  | Some b => b
  | None => p
  end.

(** [keysOnly] when [Func] of [get] runs. *)
Definition get_keysOnly (given : option bool) : bool :=
  let keysOnly := false in
  let keysOnly := BoolOpt keysOnly true in
  parse_opt keysOnly given.

(** [pb get [-k] key] *)
Definition get_cmd (given : option bool) (key : string) (db : DB) : Result :=
  get_Func (get_keysOnly given) key db.

(** [del] *)
Definition del_Func (args : list string) (db : DB) : Result :=
  if negb (Nat.eqb (List.length args) 1) then
    (db, "Invalid number of arguments. Usage: pb del [key]" ++ nl, None)
  else
    let key := nth 0 args "" in
    (db, "Deleting configuration " ++ key ++ "..." ++ nl, None).

(** The number of rows [WHERE k LIKE prefix%] selects before [LIMIT]. *)
Definition matching (prefix : string) (db : DB) : nat :=
  match postboard_kvs db with
  | None => 0%nat
  | Some t => List.length (filter (fun r => like weight (prefix ++ "%") (k r)) t)
  end.

(** *** Store operations as a transition system *)

Inductive Op : Type :=
| EnsureSchema
| Put (now : Z) (key : string) (value : list byte)
| Get (key : string)
| ListByPrefix (prefix : string)
| Del (args : list string).

(** The database after an operation; [getKey] and [listKeysWithPrefix]
    only read it. *)
Definition step (db : DB) (o : Op) : DB :=
  match o with
  | EnsureSchema => fst (prepareDatabase db)
  | Put now key value => fst (putKeyValue now key value db)
  | Get key => let _ := getKey key db in db
  | ListByPrefix prefix => let _ := listKeysWithPrefix prefix db in db
  | Del args => fst (fst (del_Func args db))
  end.

Definition run (ops : list Op) (db : DB) : DB := fold_left step ops db.

(** At most one row per key of the primary key, compared as the column
    compares. *)
Definition unique_keys (db : DB) : Prop :=
  match postboard_kvs db with
  | None => True
  | Some t => NoDup (map (fun r => sort_key weight (k r)) t)
  end.

Definition row_count (db : DB) : nat :=
  match postboard_kvs db with
  | None => 0%nat
  | Some t => List.length t
  end.

Definition has_record (key : string) (db : DB) : bool :=
  match postboard_kvs db with
  | None => false
  | Some t => Sql.has_key weight key t
  end.

(** A prefix without [LIKE] wildcard or escape characters. *)
Fixpoint plain (p : string) : bool :=
  match p with
  | EmptyString => true
  | String c p' =>
      negb (Ascii.eqb c w_many) && negb (Ascii.eqb c w_one)
      && negb (Ascii.eqb c escape) && plain p'
  end.

End Postboard.

(** ** Stores and sessions used in the examples, continued *)

(** A value with embedded null bytes. *)
Definition blob : list byte := [x00; x62; x00; xff; x00].

(** A session: the table is created, "foo" is written twice and read, the
    keys are listed, and [del] is called. *)
Definition session : list Op :=
  [ EnsureSchema;
    Put 1 "foo" (bytes_of_string "bar");
    Put 2 "foo" (bytes_of_string "baz");
    Get "foo";
    ListByPrefix "f";
    Del ["foo"] ].

(** [pb set key value] run at time [now] with nothing on standard input. *)
Definition pb_set (now : Z) (key value : string) (db : DB) : DB :=
  fst (fst (set_Func binary now "" key value db)).

Definition three_fruits : DB :=
  pb_set 3 "banana" "yellow"
    (pb_set 2 "apricot" "orange" (pb_set 1 "apple" "red" empty_table)).

(** ** The configuration file

    [loadConfig], [saveConfigToFile] and [readConfigFromStdin] work on the
    file system and on standard input.  The file system gives, for each
    path, what is there: nothing, a file with its content, a directory, or
    something that cannot be examined or opened (permission denied, a path
    that runs through a file).  [os.Stat] reports "not exist" exactly when
    there is nothing; [os.Open] succeeds on a file and on a directory, and
    reading a directory fails; [os.Create] truncates a file or makes a new
    one, and fails on a directory, on what cannot be opened, and on the
    paths marked [locked] (no permission to write, or a directory that
    [os.MkdirAll] could not make: its own error is ignored by the
    program).  The writes of the encoder succeed.  What [encoding/json]
    writes for a [Config] and what its decoder leaves in a [Config] after
    reading a content are the parameters [json_encode] and [json_decode];
    [loadConfig] ignores the decoder's error, so [json_decode] is total. *)

Record Config : Type := { DSN : string }.

Inductive node : Type :=
| Content (content : string)
| Directory
| Barred.

Record FS : Type := {
  file : string -> option node;
  locked : string -> bool
}.

(** The error of a failed [os.Open] or [os.Create]. *)
Inductive fs_error : Type :=
| PathError (op path : string).

Definition write_file (path content : string) (fs : FS) : FS :=
  {| file := fun p =>
               if String.eqb p path then Some (Content content) else file fs p;
     locked := locked fs |}.

(** [os.IsNotExist(err)] for the error of [os.Stat(path)]. *)
Definition stat_not_exist (path : string) (fs : FS) : bool :=
  match file fs path with
  | None => true
  | Some _ => false
  end.

(** [os.Open(path)] and the reads of the decoder: the content read, if any,
    or the error of [os.Open]. *)
Definition os_Open (path : string) (fs : FS) : option string * option fs_error :=
  match file fs path with
  | Some (Content content) => (Some content, None)
  | Some Directory => (None, None)
  | _ => (None, Some (PathError "open" path))
  end.

(** Whether [os.Create(path)] succeeds. *)
Definition can_create (path : string) (fs : FS) : bool :=
  negb (locked fs path)
  && match file fs path with
     | Some Directory | Some Barred => false
     | _ => true
     end.

Definition prompt : string :=
  "Please enter your database connection string:" ++ nl.

(** How [main] ends before any command runs: [log.Fatal] on the error of
    [loadConfig] or of [sql.Open]. *)
Inductive fatal : Type :=
| FatalConfig (err : fs_error)
| FatalDSN (dsn : string).

Section Configuration.

Variable json_encode : Config -> string.
Variable json_decode : string -> Config.

(** Whether the driver can parse a connection string: [sql.Open] fails
    exactly when it cannot. *)
Variable dsn_ok : string -> bool.

(** [scanned] is the word [fmt.Scanln(&DSNInputed)] reads.  The result is
    the configuration, what was printed, and the error (always [nil]). *)
Definition readConfigFromStdin (scanned : string)
  : Config * string * option fs_error :=
  ({| DSN := scanned |}, prompt, None).

Definition saveConfigToFile (config : Config) (configFilePath : string)
           (fs : FS) : FS * option fs_error :=
  if can_create configFilePath fs
  then (write_file configFilePath (json_encode config) fs, None)
  else (fs, Some (PathError "open" configFilePath)).

(** The result is the file system afterwards, what was printed, and the
    pair of configuration and error the function returns. *)
Definition loadConfig (scanned : string) (configFilePath : string) (fs : FS)
  : FS * string * (option Config * option fs_error) :=
  if stat_not_exist configFilePath fs then
    match readConfigFromStdin scanned with
    | (_, out, Some err) => (fs, out, (None, Some err))
    | (config, out, None) =>
        match saveConfigToFile config configFilePath fs with
        | (fs', Some err) => (fs', out, (None, Some err))
        | (fs', None) => (fs', out, (Some config, None))
        end
    end
  else
    match os_Open configFilePath fs with
    | (_, Some err) => (fs, "", (None, Some err))
    | (Some content, None) => (fs, "", (Some (json_decode content), None))
    | (None, None) => (fs, "", (Some {| DSN := "" |}, None))
    end.

(** The [Func] of the command [config]. *)
Definition config_Func (scanned : string) (configFilePath : string) (fs : FS)
  : FS * string * option fs_error :=
  match readConfigFromStdin scanned with
  | (_, out, Some err) => (fs, out, Some err)
  | (config, out, None) =>
      match saveConfigToFile config configFilePath fs with
      | (fs', Some err) => (fs', out, Some err)
      | (fs', None) => (fs', out, None)
      end
  end.

(** The start of [main]: [loadConfig], then [sql.Open] on the connection
    string it returned; either error ends the process. *)
Definition main_open (scanned : string) (configFilePath : string) (fs : FS)
  : FS * string * (Config + fatal) :=
  match loadConfig scanned configFilePath fs with
  | (fs', out, (_, Some err)) => (fs', out, inr (FatalConfig err))
  | (fs', out, (Some cfg, None)) =>
      if dsn_ok (DSN cfg) then (fs', out, inl cfg)
      else (fs', out, inr (FatalDSN (DSN cfg)))
  | (fs', out, (None, None)) =>
      (* [loadConfig] returns a configuration or an error *)
      (fs', out, inr (FatalDSN ""))
  end.

(** [pb config]: the start of [main], then the [Func] of [config].
    [stdin] holds the words that successive calls of [fmt.Scanln] read (an
    empty word when the input is used up); [loadConfig] reads one when the
    file is missing. *)
Definition main_config (stdin : list string) (configFilePath : string)
           (fs : FS) : FS * string * (option fs_error + fatal) :=
  match main_open (hd "" stdin) configFilePath fs with
  | (fs1, out1, inr f) => (fs1, out1, inr f)
  | (fs1, out1, inl _) =>
      let rest := if stat_not_exist configFilePath fs then tl stdin else stdin in
      match config_Func (hd "" rest) configFilePath fs1 with
      | (fs2, out2, err) => (fs2, out1 ++ out2, inl err)
      end
  end.

End Configuration.

(** A file system with no file, where every path can be created, and a
    codec that writes the connection string between two quotes. *)
Definition no_file : FS :=
  {| file := fun _ => None; locked := fun _ => false |}.

Definition quote : string := String (ascii_of_nat 34) EmptyString.

Definition quoted_encode (c : Config) : string := quote ++ DSN c ++ quote ++ nl.

(** A stand-in for the driver's parser: a connection string it accepts
    holds a [/] before the database name. *)
Definition slash_dsn (s : string) : bool :=
  match String.index 0 "/" s with
  | Some _ => true
  | None => false
  end.

Definition quoted_decode (s : string) : Config :=
  {| DSN := drop_last (drop_last (String.substring 1 (String.length s) s)) |}.

Definition fruit_rows : Table :=
  [row "apple" "red" 1; row "apricot" "orange" 2; row "banana" "yellow" 3].

Definition config_path : string := "/home/pb/.postboard/config.json".
Definition dsn : string := "pb:secret@tcp(127.0.0.1:4000)/test".

(** * Properties *)

Section Properties.

Variable weight : ascii -> ascii.


Abbreviation key_eqb := (Sql.key_eqb weight).
Abbreviation has_key := (Sql.has_key weight).
Abbreviation update_v := (Sql.update_v weight).
Abbreviation select_v := (Sql.select_v weight).

(** Runs the statements of a command on a store given in full; equal
    characters have equal weights, whatever the collation. *)
Ltac run_statements :=
  unfold get_cmd, get_Func, listKeysWithPrefix, query_select_k_like,
    select_k_like, getKey, query_select_v, Sql.select_v, Sql.key_eqb;
  repeat (cbn; unfold Sql.char_eqb; rewrite ?Ascii.eqb_refl);
  try reflexivity.

(** *** The key column *)

Lemma key_eqb_refl (a : string) : key_eqb a a = true.
Proof. apply String.eqb_refl. Qed.

Lemma has_key_false (key : string) (t : Table) :
  has_key key t = false <-> forall r, In r t -> key_eqb (k r) key = false.
Proof.
  unfold Sql.has_key. induction t as [|r0 t IH]; simpl.
  - split; [intros _ r [] | reflexivity].
  - rewrite orb_false_iff, IH. split.
    + intros [H0 Ht] r [<- | Hr]; auto.
    + intros H. split; [apply H; now left | intros r Hr; apply H; now right].
Qed.

Lemma has_key_true (key : string) (t : Table) :
  has_key key t = true <-> exists r, In r t /\ key_eqb (k r) key = true.
Proof. apply existsb_exists. Qed.

(** *** What the statements select *)

Lemma select_v_missing (key : string) (t : Table) :
  has_key key t = false -> select_v key t = [].
Proof.
  unfold Sql.select_v, Sql.has_key. induction t as [|r t IH]; simpl; auto.
  intros H. apply orb_false_iff in H as [-> Ht]. auto.
Qed.

Lemma select_v_present (key : string) (t : Table) :
  has_key key t = true -> select_v key t <> [].
Proof.
  unfold Sql.select_v, Sql.has_key. induction t as [|r t IH]; simpl.
  - discriminate.
  - destruct (key_eqb (k r) key); simpl; [discriminate | auto].
Qed.

Lemma select_v_update (key : string) (value : list byte) (t : Table) :
  select_v key (update_v key value t) =
  map (fun _ => value) (select_v key t).
Proof.
  unfold Sql.select_v, Sql.update_v. induction t as [|r t IH]; simpl; auto.
  destruct (key_eqb (k r) key) eqn:E; simpl; rewrite E; simpl; congruence.
Qed.

(** The rows after an insert: the new row and the old ones. *)
Lemma insert_row_In (now : Z) (key : string) (value : list byte) (t : Table)
      (r : Row) :
  In r (insert_row weight now key value t)
  <-> r = {| k := key; v := value; created_at := now |} \/ In r t.
Proof.
  induction t as [|r0 t IH]; simpl.
  - intuition.
  - destruct (Sql.key_ltb weight key (k r0)); simpl; rewrite ?IH; intuition.
Qed.

Lemma insert_row_length (now : Z) (key : string) (value : list byte)
      (t : Table) :
  List.length (insert_row weight now key value t) = S (List.length t).
Proof.
  induction t as [|r0 t IH]; simpl; auto.
  destruct (Sql.key_ltb weight key (k r0)); simpl; auto.
Qed.


Lemma filter_none (A : Type) (f : A -> bool) (l : list A) :
  (forall x, In x l -> f x = false) -> filter f l = [].
Proof.
  induction l as [|x l IH]; simpl; intros H; auto.
  rewrite (H x (or_introl eq_refl)). apply IH. intros y Hy. apply H. now right.
Qed.

Lemma insert_row_filter_in (f : Row -> bool) (now : Z) (key : string)
      (value : list byte) (t : Table) :
  f {| k := key; v := value; created_at := now |} = true ->
  (forall r, In r t -> f r = false) ->
  filter f (insert_row weight now key value t)
  = [ {| k := key; v := value; created_at := now |} ].
Proof.
  intros Hf. induction t as [|r0 t IH]; intros Hno; simpl.
  - now rewrite Hf.
  - destruct (Sql.key_ltb weight key (k r0)); simpl.
    + rewrite Hf. f_equal. apply (filter_none _ f (r0 :: t)). exact Hno.
    + rewrite (Hno r0 (or_introl eq_refl)).
      apply IH. intros r Hr. apply Hno. now right.
Qed.

Lemma insert_row_NoDup (B : Type) (g : Row -> B) (now : Z) (key : string)
      (value : list byte) (t : Table) :
  NoDup (map g t) ->
  ~ In (g {| k := key; v := value; created_at := now |}) (map g t) ->
  NoDup (map g (insert_row weight now key value t)).
Proof.
  induction t as [|r0 t IH]; simpl; intros Hu Hnew.
  - constructor; [intros [] | constructor].
  - destruct (Sql.key_ltb weight key (k r0)); simpl.
    + constructor; auto.
    + apply NoDup_cons_iff in Hu as [H0 Hu]. constructor.
      * intros Hin. apply in_map_iff in Hin as (r & Hg & Hr).
        apply insert_row_In in Hr as [-> | Hr].
        -- apply Hnew. now left.
        -- apply H0. rewrite <- Hg. now apply in_map.
      * apply IH; auto.
Qed.

Lemma select_v_insert (now : Z) (key : string) (value : list byte) (t : Table) :
  has_key key t = false ->
  select_v key (insert_row weight now key value t) = [value].
Proof.
  intros Hno. unfold Sql.select_v.
  rewrite insert_row_filter_in; [reflexivity | apply key_eqb_refl |].
  now apply has_key_false.
Qed.

Lemma select_v_upsert (now : Z) (key : string) (value : list byte) (t : Table) :
  exists rest,
    select_v key (insert_on_duplicate_key_update weight now key value t)
    = value :: rest.
Proof.
  unfold insert_on_duplicate_key_update.
  destruct (has_key key t) eqn:E.
  - rewrite select_v_update. apply select_v_present in E.
    destruct (select_v key t) as [|x l]; [congruence | simpl; eauto].
  - rewrite (select_v_insert _ _ _ _ E). eauto.
Qed.

(** A write that fits is accepted and can be read back. *)
Lemma put_then_get (now : Z) (key : string) (value : list byte)
      (db : DB) (t : Table) :
  postboard_kvs db = Some t ->
  utf8_valid key = true ->
  fits key value = true ->
  exists t',
    putKeyValue weight now key value db = ({| postboard_kvs := Some t' |}, None)
    /\ getKey weight key {| postboard_kvs := Some t' |} = (value, None).
Proof.
  intros Ht Hval Hfit. unfold putKeyValue, exec_insert.
  rewrite Ht, Hval, Hfit. eexists; split; [reflexivity|].
  unfold getKey, query_select_v; simpl.
  destruct (select_v_upsert now key value t) as [rest ->]. reflexivity.
Qed.

Lemma fits_intro (key : string) (value : list byte) :
  char_count key <= 255 -> Z.of_nat (List.length value) <= 65535 ->
  fits key value = true.
Proof.
  intros Hk Hv. unfold fits, varchar_k, blob_max.
  apply andb_true_intro; split; now apply Z.leb_le.
Qed.

Lemma fold_append (A : Type) (rows acc : list A) :
  fold_left (fun keys key => (keys ++ [key])%list) rows acc = (acc ++ rows)%list.
Proof.
  revert acc; induction rows as [|x rows IH]; intros acc; simpl.
  - now rewrite app_nil_r.
  - rewrite IH, <- app_assoc. reflexivity.
Qed.

Lemma listKeysWithPrefix_table (prefix : string) (db : DB) (t : Table) :
  postboard_kvs db = Some t ->
  listKeysWithPrefix weight prefix db = (select_k_like weight (prefix ++ "%") t, None).
Proof.
  intros Ht. unfold listKeysWithPrefix, query_select_k_like.
  rewrite Ht, fold_append. reflexivity.
Qed.

Lemma listKeysWithPrefix_no_table (prefix : string) (db : DB) :
  postboard_kvs db = None ->
  listKeysWithPrefix weight prefix db = ([], Some (MySQLError ER_NO_SUCH_TABLE)).
Proof.
  intros Ht. unfold listKeysWithPrefix, query_select_k_like.
  now rewrite Ht.
Qed.

(** *** The claims *)

(** C1 (as amended).  For every non-empty key that is well-formed text of
    at most 255 characters (counted as [VARCHAR(255)] counts them, not in
    bytes) and byte sequences [v1], [v2] of at most 65535 bytes each,
    whatever their content, in a store whose table exists: [Put(key, v1)]
    and then [Put(key, v2)] both succeed, and [Get(key)] afterwards
    succeeds and returns exactly [v2]. *)
Theorem put_put_get (now1 now2 : Z) (key : string) (v1 v2 : list byte)
        (db : DB) (t : Table) :
  postboard_kvs db = Some t ->
  key <> "" ->
  utf8_valid key = true ->
  char_count key <= 255 ->
  Z.of_nat (List.length v1) <= 65535 ->
  Z.of_nat (List.length v2) <= 65535 ->
  let r1 := putKeyValue weight now1 key v1 db in
  let r2 := putKeyValue weight now2 key v2 (fst r1) in
  snd r1 = None /\ snd r2 = None /\ getKey weight key (fst r2) = (v2, None).
Proof.
  intros Ht _ Hval Hk H1 H2.
  destruct (put_then_get now1 key v1 db t Ht Hval (fits_intro _ _ Hk H1))
    as (t1 & E1 & _).
  destruct (put_then_get now2 key v2 {| postboard_kvs := Some t1 |} t1
              eq_refl Hval (fits_intro _ _ Hk H2))
    as (t2 & E2 & G).
  cbv zeta. rewrite E1; simpl. rewrite E2; simpl. auto.
Qed.

(** C3.  For every prefix and every store, [ListByPrefix(prefix)] returns
    at most 1000 keys: as many as match, and 1000 when more match. *)
Theorem list_at_most_1000 (prefix : string) (db : DB) :
  let keys := fst (listKeysWithPrefix weight prefix db) in
  (List.length keys <= 1000)%nat
  /\ List.length keys = Nat.min 1000 (matching weight prefix db).
Proof.
  assert (E : List.length (fst (listKeysWithPrefix weight prefix db))
              = Nat.min 1000 (matching weight prefix db)).
  { unfold matching. destruct (postboard_kvs db) as [t|] eqn:Ht.
    - rewrite (listKeysWithPrefix_table _ _ _ Ht). simpl.
      unfold select_k_like. now rewrite length_firstn, length_map.
    - now rewrite (listKeysWithPrefix_no_table _ _ Ht). }
  cbv zeta. split; [rewrite E; apply Nat.le_min_l | exact E].
Qed.


(** C5 (as amended).  For every value and every store, the [set] command
    called with an empty key fails with the error "key is empty", prints
    nothing and leaves the store unchanged.  The check belongs to the
    command: [putKeyValue weight] itself accepts the empty key. *)
Theorem set_empty_key (now : Z) (scanned value : string) (db : DB) :
  set_Func weight now scanned "" value db
  = (db, "", Some (Errorf "key is empty")).
Proof. reflexivity. Qed.

(** C8.  For every key and every store, [del key] leaves the store as it
    was, returns no error and prints only the message
    "Deleting configuration key..."; with any other number of arguments
    the store is unchanged as well. *)
Theorem del_is_noop (key : string) (args : list string) (db : DB) :
  del_Func [key] db
  = (db, "Deleting configuration " ++ key ++ "..." ++ nl, None)
  /\ fst (fst (del_Func args db)) = db.
Proof.
  split; [reflexivity|].
  unfold del_Func. destruct (negb _); reflexivity.
Qed.

Lemma in_firstn (A : Type) (n : nat) (x : A) (l : list A) :
  In x (firstn n l) -> In x l.
Proof.
  intros H. rewrite <- (firstn_skipn n l). apply in_or_app. now left.
Qed.

(** A plain prefix followed by [%] matches only keys that begin with the
    prefix, as the collation compares characters. *)
Lemma like_plain_prefix (p s : string) :
  plain p = true ->
  like weight (p ++ "%") s = true ->
  String.prefix (sort_key weight p) (sort_key weight s) = true.
Proof.
  revert s. induction p as [|c p IH]; intros s Hp Hl.
  - now destruct s.
  - simpl in Hp. rewrite !andb_true_iff, !negb_true_iff in Hp.
    destruct Hp as [[[Hm Ho] He] Hp].
    change (String c p ++ "%") with (String c (p ++ "%")) in Hl.
    cbn [like] in Hl. rewrite Hm, Ho, He in Hl.
    destruct s as [|d s]; [discriminate|].
    apply andb_true_iff in Hl as [Hc Hl].
    apply Ascii.eqb_eq in Hc. simpl. rewrite Hc.
    destruct (ascii_dec (weight d) (weight d)); [auto | congruence].
Qed.

(** C2 (as amended).  Every key returned by [ListByPrefix(prefix)] is the
    key of a Record of the store, and that key (not the Record's value)
    matches the pattern [prefix%] of [LIKE]; when the prefix holds no
    wildcard or escape character, the key starts with the prefix as the
    column's collation compares characters. *)
Theorem listed_key_matches (prefix key : string) (db : DB) :
  In key (fst (listKeysWithPrefix weight prefix db)) ->
  exists t r,
    postboard_kvs db = Some t /\ In r t /\ k r = key
    /\ like weight (prefix ++ "%") key = true
    /\ (plain prefix = true ->
        String.prefix (sort_key weight prefix) (sort_key weight key) = true).
Proof.
  destruct (postboard_kvs db) as [t|] eqn:Ht.
  - rewrite (listKeysWithPrefix_table _ _ _ Ht). cbn [fst].
    unfold select_k_like. intros H. apply in_firstn in H.
    apply in_map_iff in H as (r & <- & Hr).
    apply filter_In in Hr as [Hr Hl].
    exists t, r. repeat split; auto.
    intros Hp. now apply like_plain_prefix.
  - rewrite (listKeysWithPrefix_no_table _ _ Ht). intros [].
Qed.

(** C10.  The prefix goes into the [LIKE] pattern [prefix + "%"] as it
    is, so its wildcards act as wildcards: with the stored keys "ax" and
    "bx", [ListByPrefix("_")] and [ListByPrefix("%")] return both keys,
    and neither key starts with "_" or with "%". *)
Theorem prefix_wildcards_not_escaped :
  listKeysWithPrefix weight "_" ax_bx = (["ax"; "bx"], None)
  /\ has_prefix "_" "ax" = false
  /\ has_prefix "_" "bx" = false
  /\ listKeysWithPrefix weight "%" ax_bx = (["ax"; "bx"], None)
  /\ has_prefix "%" "ax" = false
  /\ has_prefix "%" "bx" = false.
Proof. repeat split. Qed.

(** *** Overwriting *)

Lemma update_v_rows (key : string) (value : list byte) (t : Table) :
  Forall2
    (fun old new =>
       if key_eqb (k old) key
       then k new = k old /\ v new = value /\ created_at new = created_at old
       else new = old)
    t (update_v key value t).
Proof.
  induction t as [|r t IH]; simpl; constructor; auto.
  destruct (key_eqb (k r) key); simpl; auto.
Qed.

(** C7.  When [key] already has a Record, a successful [Put(key, v2)]
    leaves the table with the same rows in the same places: the Record of
    [key] keeps its key and its [created_at] and has the value [v2], and
    every other Record is exactly as before. *)
Theorem overwrite_keeps_created_at
        (now : Z) (key : string) (v2 : list byte) (db db' : DB)
        (t : Table) (r : Row) :
  postboard_kvs db = Some t ->
  In r t ->
  key_eqb (k r) key = true ->
  putKeyValue weight now key v2 db = (db', None) ->
  exists t',
    postboard_kvs db' = Some t'
    /\ Forall2
         (fun old new =>
            if key_eqb (k old) key
            then k new = k old /\ v new = v2
                 /\ created_at new = created_at old
            else new = old)
         t t'.
Proof.
  intros Ht Hr Hk Hput. unfold putKeyValue, exec_insert in Hput.
  rewrite Ht in Hput.
  destruct (utf8_valid key); [|discriminate].
  destruct (fits key v2); [|discriminate]. simpl in Hput.
  injection Hput as <-. eexists; split; [reflexivity|].
  unfold insert_on_duplicate_key_update.
  replace (has_key key t) with true
    by (symmetry; apply has_key_true; eauto).
  apply update_v_rows.
Qed.

(** *** The primary key *)

Lemma update_v_keys (key : string) (value : list byte) (t : Table) :
  map (fun r => sort_key weight (k r)) (update_v key value t)
  = map (fun r => sort_key weight (k r)) t.
Proof.
  unfold Sql.update_v. rewrite map_map. apply map_ext.
  intros r. now destruct (key_eqb (k r) key).
Qed.

Lemma upsert_unique (now : Z) (key : string) (value : list byte) (t : Table) :
  NoDup (map (fun r => sort_key weight (k r)) t) ->
  NoDup (map (fun r => sort_key weight (k r))
             (insert_on_duplicate_key_update weight now key value t)).
Proof.
  intros Hu. unfold insert_on_duplicate_key_update.
  destruct (has_key key t) eqn:E.
  - now rewrite update_v_keys.
  - apply insert_row_NoDup; auto.
    intros Ha. apply in_map_iff in Ha as (r & Hr & Hin).
    pose proof (proj1 (has_key_false key t) E r Hin) as Hne.
    unfold Sql.key_eqb in Hne. simpl in Hr. rewrite Hr in Hne.
    now rewrite String.eqb_refl in Hne.
Qed.

(** The two outcomes of [putKeyValue]: the statement is run on the table,
    or an error is returned and the database is left as it was. *)
Lemma putKeyValue_cases (now : Z) (key : string) (value : list byte) (db : DB) :
  (exists t,
      postboard_kvs db = Some t
      /\ utf8_valid key = true /\ fits key value = true
      /\ putKeyValue weight now key value db
         = ({| postboard_kvs :=
                 Some (insert_on_duplicate_key_update weight now key value t) |},
            None))
  \/ (exists err, putKeyValue weight now key value db = (db, Some err)).
Proof.
  unfold putKeyValue, exec_insert.
  destruct (postboard_kvs db) as [t|] eqn:E; [|right; eauto].
  destruct (utf8_valid key); simpl; [|right; eauto].
  destruct (fits key value); [left; eauto 6 | right; eauto].
Qed.

Lemma step_unique (db : DB) (o : Op) :
  unique_keys weight db -> unique_keys weight (step weight db o).
Proof.
  intros Hu. destruct o as [|now key value|key|prefix|args]; simpl; auto.
  - unfold prepareDatabase, exec_create_table.
    destruct (postboard_kvs db) eqn:E; simpl; auto. constructor.
  - destruct (putKeyValue_cases now key value db)
      as [(t & E & _ & _ & ->) | (err & ->)]; simpl; auto.
    unfold unique_keys in *. rewrite E in Hu. simpl.
    now apply upsert_unique.
  - unfold del_Func. now destruct (negb _).
Qed.

Lemma run_unique (ops : list Op) (db : DB) :
  unique_keys weight db -> unique_keys weight (run weight ops db).
Proof.
  revert db. induction ops as [|o ops IH]; intros db Hu; simpl; auto.
  apply IH. now apply step_unique.
Qed.

Lemma put_existing_row_count (now : Z) (key : string) (value : list byte)
      (db : DB) :
  has_record weight key db = true ->
  row_count (fst (putKeyValue weight now key value db)) = row_count db.
Proof.
  intros Hk.
  destruct (putKeyValue_cases now key value db)
    as [(t & E & _ & _ & ->) | (err & ->)]; simpl; auto.
  unfold has_record, row_count in *. rewrite E in *. simpl.
  unfold insert_on_duplicate_key_update. rewrite Hk.
  unfold Sql.update_v. now rewrite length_map.
Qed.

(** C9.  In every store reached from the empty one (no table yet, or the
    table just created) by any sequence of EnsureSchema, Put, Get,
    ListByPrefix and del, the table holds at most one Record per key.  A
    Put on a key that has a Record creates no second one: the number of
    Records stays as it was and the keys stay unique; and when the Put
    succeeds it has changed that Record in place: the table holds the same
    rows in the same places, the Record of the key with its key and
    [created_at] as before and the new value, every other Record as it
    was, and [Get] of the key returns the new value. *)
Theorem one_record_per_key (ops : list Op) (init : DB) (t : Table) :
  init = no_table \/ init = empty_table ->
  postboard_kvs (run weight ops init) = Some t ->
  NoDup (map k t)
  /\ forall now key value,
       has_record weight key (run weight ops init) = true ->
       let r := putKeyValue weight now key value (run weight ops init) in
       row_count (fst r) = List.length t
       /\ unique_keys weight (fst r)
       /\ (snd r = None ->
           getKey weight key (fst r) = (value, None)
           /\ exists t',
                postboard_kvs (fst r) = Some t'
                /\ Forall2
                     (fun old new =>
                        if key_eqb (k old) key
                        then k new = k old /\ v new = value
                             /\ created_at new = created_at old
                        else new = old)
                     t t').
Proof.
  intros Hinit Ht.
  assert (Hu : unique_keys weight (run weight ops init)).
  { apply run_unique. destruct Hinit as [-> | ->]; [exact I | constructor]. }
  split.
  - unfold unique_keys in Hu. rewrite Ht in Hu.
    rewrite <- (map_map k (sort_key weight)) in Hu.
    now apply NoDup_map_inv in Hu.
  - intros now key value Hk. cbv zeta. split; [|split].
    + rewrite put_existing_row_count by assumption.
      unfold row_count. now rewrite Ht.
    + apply (step_unique _ (Put now key value) Hu).
    + intros Hok.
      destruct (putKeyValue_cases now key value (run weight ops init))
        as [(t0 & E & Hval & Hfit & Hput) | (err & Hput)];
        [|rewrite Hput in Hok; discriminate].
      rewrite Ht in E. injection E as <-.
      destruct (put_then_get now key value _ t Ht Hval Hfit) as (t' & Hput' & G).
      rewrite Hput'. cbn [fst]. split; [exact G|].
      exists t'. split; [reflexivity|].
      rewrite Hput in Hput'. injection Hput' as <-.
      unfold has_record in Hk. rewrite Ht in Hk.
      unfold insert_on_duplicate_key_update. rewrite Hk.
      apply update_v_rows.
Qed.

(** C6.  [get] registers option [-k] with the default value [true], which
    replaces the initial [keysOnly := false]: without the option the
    wildcard form prints the keys only, and only [-k=false] gives the
    "key=value" lines. *)
Theorem get_wildcard_default_is_keys_only :
  get_keysOnly None = true
  /\ get_cmd weight None "foo*" foo_bar = (foo_bar, "foo" ++ nl, None)
  /\ get_cmd weight (Some true) "foo*" foo_bar = (foo_bar, "foo" ++ nl, None)
  /\ get_cmd weight (Some false) "foo*" foo_bar
     = (foo_bar, "foo=bar" ++ nl, None).
Proof. repeat split; run_statements. Qed.

End Properties.

(** * Further properties of the store *)

Section Store.

Variable weight : ascii -> ascii.

Abbreviation key_eqb := (Sql.key_eqb weight).
Abbreviation has_key := (Sql.has_key weight).
Abbreviation update_v := (Sql.update_v weight).
Abbreviation select_v := (Sql.select_v weight).
Abbreviation upsert := (insert_on_duplicate_key_update weight).

(** *** Reads of other keys *)




(** *** Rows after a write *)

Lemma has_key_upsert (now : Z) (key : string) (value : list byte) (t : Table) :
  has_key key (upsert now key value t) = true.
Proof.
  destruct (select_v_upsert weight now key value t) as [rest E].
  destruct (has_key key (upsert now key value t)) eqn:H; auto.
  rewrite (select_v_missing weight _ _ H) in E. discriminate.
Qed.

Lemma update_v_fixed (key : string) (value : list byte) (t : Table) :
  (forall r, In r t -> key_eqb (k r) key = true -> v r = value) ->
  update_v key value t = t.
Proof.
  unfold Sql.update_v. induction t as [|r t IH]; simpl; intros H; auto.
  rewrite IH by (intros r' Hr'; apply H; now right). f_equal.
  destruct (key_eqb (k r) key) eqn:E; auto.
  destruct r as [rk rv rc]. unfold set_v; simpl.
  f_equal. symmetry. apply (H _ (or_introl eq_refl) E).
Qed.

Lemma upsert_values (now : Z) (key : string) (value : list byte) (t : Table) :
  forall r, In r (upsert now key value t) ->
            key_eqb (k r) key = true -> v r = value.
Proof.
  unfold insert_on_duplicate_key_update. intros r.
  destruct (has_key key t) eqn:E.
  - unfold Sql.update_v. intros Hr Hk. apply in_map_iff in Hr as (r0 & <- & _).
    destruct (key_eqb (k r0) key) eqn:E0; [reflexivity|].
    simpl in Hk. congruence.
  - intros Hr Hk. apply insert_row_In in Hr as [-> | Hr].
    + reflexivity.
    + rewrite (proj1 (has_key_false weight key t) E r Hr) in Hk. discriminate.
Qed.

(** Each old row is still there after the statement, with its key and its
    [created_at]. *)
Lemma upsert_keeps_rows (now : Z) (key : string) (value : list byte)
      (t : Table) (r : Row) :
  In r t ->
  exists r', In r' (upsert now key value t)
             /\ k r' = k r /\ created_at r' = created_at r.
Proof.
  intros Hr. unfold insert_on_duplicate_key_update.
  destruct (has_key key t).
  - exists (if key_eqb (k r) key then set_v value r else r). split.
    + unfold Sql.update_v. apply in_map_iff. now exists r.
    + now destruct (key_eqb (k r) key).
  - exists r. split; auto. apply insert_row_In. now right.
Qed.

Lemma upsert_length (now : Z) (key : string) (value : list byte) (t : Table) :
  (List.length t <= List.length (upsert now key value t))%nat.
Proof.
  unfold insert_on_duplicate_key_update, Sql.update_v.
  destruct (has_key key t).
  - now rewrite length_map.
  - rewrite insert_row_length. lia.
Qed.

Lemma fits_iff (key : string) (value : list byte) :
  fits key value = true
  <-> char_count key <= 255 /\ Z.of_nat (List.length value) <= 65535.
Proof.
  unfold fits, varchar_k, blob_max.
  now rewrite andb_true_iff, !Z.leb_le.
Qed.

(** X2.  Once [prepareDatabase] has run, [getKey] on a key that has no
    Record fails with [sql.ErrNoRows], whatever the database was before
    (without a table, or with other Records). *)
Theorem getKey_after_prepareDatabase (key : string) (db : DB) :
  has_record weight key db = false ->
  getKey weight key (fst (prepareDatabase db)) = ([], Some ErrNoRows).
Proof.
  unfold has_record, prepareDatabase, exec_create_table, getKey, query_select_v.
  destruct (postboard_kvs db) as [t|] eqn:E; simpl; intros H.
  - rewrite E. now rewrite (select_v_missing weight _ _ H).
  - reflexivity.
Qed.


(** *** Sequences of operations *)

Lemma step_keeps_row (db : DB) (o : Op) (t : Table) (r : Row) :
  postboard_kvs db = Some t -> In r t ->
  exists t' r',
    postboard_kvs (step weight db o) = Some t' /\ In r' t'
    /\ k r' = k r /\ created_at r' = created_at r.
Proof.
  intros Ht Hr.
  assert (Same : exists t' r', postboard_kvs db = Some t' /\ In r' t'
                               /\ k r' = k r /\ created_at r' = created_at r)
    by (exists t, r; auto).
  destruct o as [|now key value|key|prefix|args]; simpl; auto.
  - unfold prepareDatabase, exec_create_table. now rewrite Ht.
  - destruct (putKeyValue_cases weight now key value db)
      as [(t0 & E & _ & _ & ->) | (err & ->)]; simpl; auto.
    rewrite Ht in E. injection E as <-.
    destruct (upsert_keeps_rows now key value t r Hr) as (r' & Hr' & Hk & Hc).
    eauto 6.
  - unfold del_Func. now destruct (negb _).
Qed.

Lemma run_keeps_row (ops : list Op) (db : DB) (t : Table) (r : Row) :
  postboard_kvs db = Some t -> In r t ->
  exists t' r',
    postboard_kvs (run weight ops db) = Some t' /\ In r' t'
    /\ k r' = k r /\ created_at r' = created_at r.
Proof.
  revert db t r. induction ops as [|o ops IH]; intros db t r Ht Hr; simpl.
  - exists t, r; auto.
  - destruct (step_keeps_row db o t r Ht Hr) as (t1 & r1 & Ht1 & Hr1 & Hk & Hc).
    destruct (IH _ _ _ Ht1 Hr1) as (t' & r' & Ht' & Hr' & Hk' & Hc').
    exists t', r'. repeat split; auto; congruence.
Qed.

Lemma step_row_count (db : DB) (o : Op) :
  (row_count db <= row_count (step weight db o))%nat.
Proof.
  destruct o as [|now key value|key|prefix|args]; simpl; auto.
  - unfold prepareDatabase, exec_create_table, row_count.
    destruct (postboard_kvs db) eqn:E; simpl; [now rewrite E | lia].
  - destruct (putKeyValue_cases weight now key value db)
      as [(t & E & _ & _ & ->) | (err & ->)]; simpl; auto.
    unfold row_count. rewrite E. simpl. apply upsert_length.
  - unfold del_Func. now destruct (negb _).
Qed.

Lemma run_row_count (ops : list Op) (db : DB) :
  (row_count db <= row_count (run weight ops db))%nat.
Proof.
  revert db. induction ops as [|o ops IH]; intros db; simpl; auto.
  etransitivity; [apply (step_row_count db o) | apply IH].
Qed.

Lemma step_fits (db : DB) (o : Op) :
  (forall t r, postboard_kvs db = Some t -> In r t ->
               fits (k r) (v r) = true) ->
  forall t r, postboard_kvs (step weight db o) = Some t -> In r t ->
              fits (k r) (v r) = true.
Proof.
  intros Inv. destruct o as [|now key value|key|prefix|args]; simpl; auto.
  - unfold prepareDatabase, exec_create_table.
    destruct (postboard_kvs db) as [t0|] eqn:E; simpl.
    + rewrite E. intros t r [= <-]. now apply Inv.
    + intros t r [= <-] [].
  - destruct (putKeyValue_cases weight now key value db)
      as [(t0 & E & _ & F & ->) | (err & ->)]; simpl; auto.
    intros t r [= <-]. unfold insert_on_duplicate_key_update.
    destruct (has_key key t0).
    + unfold Sql.update_v. intros Hr.
      apply in_map_iff in Hr as (r0 & <- & Hr0).
      pose proof (Inv t0 r0 E Hr0) as F0.
      destruct (key_eqb (k r0) key); auto.
      unfold fits in *; simpl.
      apply andb_true_iff in F as [_ ->].
      apply andb_true_iff in F0 as [-> _]. reflexivity.
    + intros Hr. apply insert_row_In in Hr as [-> | Hr]; auto.
      now apply (Inv t0).
  - unfold del_Func. now destruct (negb _).
Qed.

Lemma run_fits (ops : list Op) (db : DB) :
  (forall t r, postboard_kvs db = Some t -> In r t ->
               fits (k r) (v r) = true) ->
  forall t r, postboard_kvs (run weight ops db) = Some t -> In r t ->
              fits (k r) (v r) = true.
Proof.
  revert db. induction ops as [|o ops IH]; intros db Inv; simpl; auto.
  apply IH. now apply step_fits.
Qed.

(** X5.  Repeating a [putKeyValue] with the same key and value, at any
    later time, returns the same error and leaves the database exactly as
    the first call left it. *)
Theorem putKeyValue_twice (now1 now2 : Z) (key : string) (value : list byte)
        (db : DB) :
  let r1 := putKeyValue weight now1 key value db in
  putKeyValue weight now2 key value (fst r1) = r1.
Proof.
  cbv zeta.
  destruct (putKeyValue_cases weight now1 key value db)
    as [(t & E & Hval & F & ->) | (err & Hput)]; cbn [fst].
  - unfold putKeyValue, exec_insert. cbn [postboard_kvs].
    rewrite Hval, F. cbn [negb]. do 2 f_equal. f_equal.
    unfold insert_on_duplicate_key_update at 1. rewrite has_key_upsert.
    apply update_v_fixed. apply upsert_values.
  - rewrite Hput. cbn [fst].
    unfold putKeyValue, exec_insert in *.
    destruct (postboard_kvs db) as [t|]; [|exact Hput].
    destruct (utf8_valid key); [|exact Hput].
    destruct (fits key value); [discriminate | exact Hput].
Qed.

(** X6.  No sequence of EnsureSchema, Put, Get, ListByPrefix and del
    removes a Record or changes its key or its [created_at]: a Record of
    the store is found again afterwards, and the number of Records never
    goes down. *)
Theorem records_never_removed (ops : list Op) (db : DB) (t : Table) (r : Row) :
  postboard_kvs db = Some t ->
  In r t ->
  (row_count db <= row_count (run weight ops db))%nat
  /\ exists t' r',
       postboard_kvs (run weight ops db) = Some t' /\ In r' t'
       /\ k r' = k r /\ created_at r' = created_at r.
Proof.
  intros Ht Hr. split; [apply run_row_count | now apply (run_keeps_row ops db t)].
Qed.


(** X8.  In every store reached from the empty one (no table yet, or the
    table just created), every Record has a key of at most 255 characters
    (characters, as [VARCHAR(255)] counts, not bytes) and a value of at
    most 65535 bytes. *)
Theorem records_within_columns (ops : list Op) (init : DB) (t : Table) (r : Row) :
  init = no_table \/ init = empty_table ->
  postboard_kvs (run weight ops init) = Some t ->
  In r t ->
  char_count (k r) <= 255 /\ Z.of_nat (List.length (v r)) <= 65535.
Proof.
  intros Hinit Ht Hr. apply fits_iff.
  apply (run_fits ops init) with (t := t); auto.
  destruct Hinit as [-> | ->]; simpl.
  - discriminate.
  - intros t0 r0 [= <-] [].
Qed.

(** *** Listing *)

Lemma like_many (s : string) : like weight "%" s = true.
Proof.
  induction s as [|c s IH]; [reflexivity|].
  simpl. simpl in IH. exact IH.
Qed.

Lemma prefix_like_plain (p s : string) :
  plain p = true ->
  String.prefix (sort_key weight p) (sort_key weight s) = true ->
  like weight (p ++ "%") s = true.
Proof.
  revert s. induction p as [|c p IH]; intros s Hp Hs.
  - apply like_many.
  - simpl in Hp. rewrite !andb_true_iff, !negb_true_iff in Hp.
    destruct Hp as [[[Hm Ho] He] Hp].
    change (String c p ++ "%") with (String c (p ++ "%")).
    cbn [like]. rewrite Hm, Ho, He.
    destruct s as [|d s]; [discriminate|]. simpl in Hs.
    destruct (ascii_dec (weight c) (weight d)) as [E|]; [|discriminate].
    unfold char_eqb. rewrite E, Ascii.eqb_refl. simpl. now apply IH.
Qed.

Lemma like_escaped_percent (p s : string) :
  plain p = true ->
  like weight ((p ++ "\") ++ "%") s = key_eqb (p ++ "%") s.
Proof.
  revert s. induction p as [|c p IH]; intros s Hp.
  - destruct s as [|d s]; [reflexivity|].
    unfold Sql.key_eqb. simpl. unfold char_eqb. f_equal. now destruct s.
  - simpl in Hp. rewrite !andb_true_iff, !negb_true_iff in Hp.
    destruct Hp as [[[Hm Ho] He] Hp].
    change ((String c p ++ "\") ++ "%") with (String c ((p ++ "\") ++ "%")).
    cbn [like]. rewrite Hm, Ho, He.
    destruct s as [|d s]; [reflexivity|].
    rewrite (IH s Hp). reflexivity.
Qed.

Lemma listed_key_present (prefix key : string) (db : DB) :
  In key (fst (listKeysWithPrefix weight prefix db)) ->
  exists t r, postboard_kvs db = Some t /\ In r t /\ k r = key
              /\ like weight (prefix ++ "%") key = true.
Proof.
  destruct (postboard_kvs db) as [t|] eqn:Ht.
  - rewrite (listKeysWithPrefix_table weight _ _ _ Ht). cbn [fst].
    unfold select_k_like. intros H. apply in_firstn in H.
    apply in_map_iff in H as (r & <- & Hr).
    apply filter_In in Hr as [Hr Hl]. eauto 6.
  - rewrite (listKeysWithPrefix_no_table weight _ _ Ht). intros [].
Qed.

Lemma getKey_present (key : string) (db : DB) (t : Table) :
  postboard_kvs db = Some t ->
  has_key key t = true ->
  exists value, getKey weight key db = (value, None).
Proof.
  intros Ht Hk. unfold getKey, query_select_v. rewrite Ht.
  apply (select_v_present weight) in Hk.
  destruct (select_v key t) as [|value rest]; [congruence | eauto].
Qed.

(** X9.  For a prefix without [%], [_] and [\], and a table in which at
    most 1000 keys match, [listKeysWithPrefix] returns exactly the keys of
    the Records whose key starts with the prefix (as the collation compares
    characters): none is missing and none is added. *)
Theorem list_plain_prefix (prefix key : string) (db : DB) (t : Table) :
  postboard_kvs db = Some t ->
  plain prefix = true ->
  (matching weight prefix db <= 1000)%nat ->
  In key (fst (listKeysWithPrefix weight prefix db))
  <-> exists r, In r t /\ k r = key
                /\ String.prefix (sort_key weight prefix)
                                 (sort_key weight key) = true.
Proof.
  intros Ht Hp Hn. unfold matching in Hn. rewrite Ht in Hn.
  rewrite (listKeysWithPrefix_table weight _ _ _ Ht). cbn [fst].
  unfold select_k_like. rewrite firstn_all2 by now rewrite length_map.
  rewrite in_map_iff. split.
  - intros (r & <- & Hr). apply filter_In in Hr as [Hr Hl].
    exists r. repeat split; auto. now apply like_plain_prefix.
  - intros (r & Hr & <- & Hpre). exists r. split; auto.
    apply filter_In. split; auto. now apply prefix_like_plain.
Qed.

(** X10.  With the empty prefix (the command [get *]) the pattern is [%]
    alone: [listKeysWithPrefix] returns the keys of the first 1000 Records
    of the table, in scan order, whatever the keys are. *)
Theorem list_empty_prefix (db : DB) (t : Table) :
  postboard_kvs db = Some t ->
  listKeysWithPrefix weight "" db = (firstn 1000 (map k t), None).
Proof.
  intros Ht. rewrite (listKeysWithPrefix_table weight _ _ _ Ht).
  unfold select_k_like. simpl append.
  rewrite (filter_ext _ (fun _ => true)) by (intros r; apply like_many).
  now rewrite filter_true.
Qed.

(** X11.  A prefix that ends with a backslash escapes the [%] that
    [listKeysWithPrefix] appends: for [p] without [%], [_] and [\], the
    prefix [p\] no longer selects the keys that start with it, but only a
    key equal to [p%]. *)
Theorem list_prefix_trailing_backslash (p key : string) (db : DB) :
  plain p = true ->
  In key (fst (listKeysWithPrefix weight (p ++ "\") db)) ->
  key_eqb (p ++ "%") key = true.
Proof.
  intros Hp H. apply listed_key_present in H as (t & r & _ & _ & _ & Hl).
  now rewrite like_escaped_percent in Hl.
Qed.

(** X12.  Every key that [listKeysWithPrefix] returns can be read: [getKey]
    on it returns a value and no error. *)
Theorem listed_key_readable (prefix key : string) (db : DB) :
  In key (fst (listKeysWithPrefix weight prefix db)) ->
  exists value, getKey weight key db = (value, None).
Proof.
  intros H. apply listed_key_present in H as (t & r & Ht & Hr & <- & _).
  apply (getKey_present _ _ t Ht).
  apply has_key_true. exists r. split; auto. apply key_eqb_refl.
Qed.

(** *** The commands *)

Lemma last_byte_app (p : string) (c : ascii) :
  last_byte (p ++ String c "") = Some c.
Proof.
  induction p as [|d p IH]; [reflexivity|].
  simpl. destruct (p ++ String c "") eqn:E; [|exact IH].
  destruct p; discriminate.
Qed.

Lemma drop_last_app (p : string) (c : ascii) :
  drop_last (p ++ String c "") = p.
Proof.
  induction p as [|d p IH]; [reflexivity|].
  simpl. destruct (p ++ String c "") eqn:E.
  - destruct p; discriminate.
  - now rewrite IH.
Qed.

Lemma length_bytes_of_string (s : string) :
  List.length (bytes_of_string s) = String.length s.
Proof.
  unfold bytes_of_string, list_byte_of_string. rewrite length_map.
  induction s as [|c s IH]; simpl; auto.
Qed.

(** The loop of [get] over keys that can all be read. *)
Lemma print_keys_readable (keysOnly : bool) (keys : list string) (db : DB) :
  (forall key, In key keys -> exists value, getKey weight key db = (value, None)) ->
  print_keys weight keysOnly keys db
  = (fold_right
       (fun key out =>
          if keysOnly then key ++ nl ++ out
          else key ++ "=" ++ string_of_bytes (fst (getKey weight key db))
                   ++ nl ++ out)
       "" keys,
     None).
Proof.
  induction keys as [|key keys IH]; intros H; [reflexivity|].
  cbn [print_keys fold_right].
  rewrite IH by (intros key' Hk; apply H; now right).
  destruct keysOnly; [reflexivity|].
  destruct (H key (or_introl eq_refl)) as [value ->]. reflexivity.
Qed.

(** The exact form of [get]: the key is not empty and does not end
    with [*]. *)
Lemma get_Func_exact (keysOnly : bool) (key : string) (db : DB) :
  key <> "" ->
  last_byte key <> Some "*"%char ->
  get_Func weight keysOnly key db
  = match getKey weight key db with
    | (_, Some err) => (db, "", Some err)
    | (val, None) => (db, string_of_bytes val ++ nl, None)
    end.
Proof.
  intros Hk Hl. unfold get_Func.
  apply String.eqb_neq in Hk. rewrite Hk.
  destruct (last_byte key) as [c|]; [|reflexivity].
  destruct c as [[] [] [] [] [] [] [] []]; try reflexivity.
  now contradiction Hl.
Qed.

(** X13.  On a database that has the table, [get prefix*] returns no error,
    leaves the database as it is and prints one line per key that
    [listKeysWithPrefix prefix] returns, in that order: the key alone when
    [keysOnly] is set, and otherwise [key=value] with the value [getKey]
    reads for it.  The prefix is everything before the last [*]. *)
Theorem get_wildcard_output (keysOnly : bool) (prefix : string) (db : DB)
        (t : Table) :
  postboard_kvs db = Some t ->
  get_Func weight keysOnly (prefix ++ "*") db
  = (db,
     fold_right
       (fun key out =>
          if keysOnly then key ++ nl ++ out
          else key ++ "=" ++ string_of_bytes (fst (getKey weight key db))
                   ++ nl ++ out)
       "" (fst (listKeysWithPrefix weight prefix db)),
     None).
Proof.
  intros Ht. unfold get_Func.
  replace (String.eqb (prefix ++ "*") "") with false
    by (now destruct prefix).
  rewrite last_byte_app, drop_last_app.
  rewrite (listKeysWithPrefix_table weight _ _ _ Ht). cbn [fst].
  rewrite print_keys_readable; [reflexivity|].
  intros key Hin. apply (listed_key_readable prefix).
  now rewrite (listKeysWithPrefix_table weight _ _ _ Ht).
Qed.

(** X14.  [set] followed by [get]: on a database that has the table, for a
    key that is not empty, does not end with [*] and is well-formed text of
    at most 255 characters (characters, not bytes), [set] stores the value
    argument, or the word read from standard input when the argument is
    empty, provided it has at most 65535 bytes; it prints nothing and
    returns no error, and [get] on the same key then prints that value and
    a newline. *)
Theorem set_then_get (now : Z) (scanned key value : string) (keysOnly : bool)
        (db : DB) (t : Table) :
  postboard_kvs db = Some t ->
  key <> "" ->
  last_byte key <> Some "*"%char ->
  utf8_valid key = true ->
  char_count key <= 255 ->
  len (if String.eqb value "" then scanned else value) <= 65535 ->
  let r := set_Func weight now scanned key value db in
  snd r = None
  /\ snd (fst r) = ""
  /\ get_Func weight keysOnly key (fst (fst r))
     = (fst (fst r),
        (if String.eqb value "" then scanned else value) ++ nl, None).
Proof.
  intros Ht Hk Hl Hval Hlen Hv. cbv zeta. unfold set_Func.
  rewrite (proj2 (String.eqb_neq key "") Hk).
  set (stored := if String.eqb value "" then scanned else value) in *.
  assert (F : fits key (bytes_of_string stored) = true).
  { apply fits_intro; auto. now rewrite length_bytes_of_string. }
  destruct (put_then_get weight now key (bytes_of_string stored) db t Ht
              Hval F)
    as (t' & -> & G).
  cbn [fst snd]. repeat split.
  rewrite (get_Func_exact _ _ _ Hk Hl), G.
  unfold string_of_bytes, bytes_of_string.
  now rewrite string_of_list_byte_of_string.
Qed.

(** X15.  [get] on a key that is not empty, does not end with [*] and has
    no Record in the table prints nothing and returns [sql.ErrNoRows]. *)
Theorem get_missing_key (keysOnly : bool) (key : string) (db : DB) (t : Table) :
  postboard_kvs db = Some t ->
  key <> "" ->
  last_byte key <> Some "*"%char ->
  has_key key t = false ->
  get_Func weight keysOnly key db = (db, "", Some ErrNoRows).
Proof.
  intros Ht Hk Hl Hno. rewrite (get_Func_exact _ _ _ Hk Hl).
  unfold getKey, query_select_v. rewrite Ht.
  now rewrite (select_v_missing weight _ _ Hno).
Qed.

(** *** Unique keys at work *)

Lemma select_v_unique (t : Table) (r : Row) :
  NoDup (map (fun r => sort_key weight (k r)) t) ->
  In r t ->
  select_v (k r) t = [v r].
Proof.
  unfold Sql.select_v. induction t as [|r0 t IH]; intros Hu Hr; [destruct Hr|].
  simpl in Hu. apply NoDup_cons_iff in Hu as [Hfresh Hu].
  assert (Others : forall r', In r' t -> key_eqb (k r') (k r0) = false).
  { intros r' Hr'. destruct (key_eqb (k r') (k r0)) eqn:E; auto.
    unfold Sql.key_eqb in E. apply String.eqb_eq in E.
    exfalso. apply Hfresh. rewrite <- E.
    apply (in_map (fun r => sort_key weight (k r))). exact Hr'. }
  simpl. destruct Hr as [<- | Hr].
  - rewrite key_eqb_refl. simpl. f_equal.
    apply (select_v_missing weight), has_key_false. exact Others.
  - replace (key_eqb (k r0) (k r)) with false.
    + now apply IH.
    + symmetry. unfold Sql.key_eqb. rewrite String.eqb_sym. now apply Others.
Qed.

Lemma NoDup_map_filter (A B : Type) (f : A -> B) (g : A -> bool) (l : list A) :
  NoDup (map f l) -> NoDup (map f (filter g l)).
Proof.
  induction l as [|x l IH]; simpl; intros H; [constructor|].
  apply NoDup_cons_iff in H as [Hx Hl].
  destruct (g x); simpl; auto.
  constructor; auto.
  intros Hin. apply Hx. apply in_map_iff in Hin as (y & <- & Hy).
  apply in_map. now apply filter_In in Hy as [Hy _].
Qed.

Lemma NoDup_firstn (A : Type) (n : nat) (l : list A) :
  NoDup l -> NoDup (firstn n l).
Proof.
  revert l. induction n as [|n IH]; intros [|x l] H; simpl; try constructor.
  - apply NoDup_cons_iff in H as [Hx Hl].
    intros Hin. apply Hx. now apply in_firstn in Hin.
  - apply IH. now apply NoDup_cons_iff in H as [_ Hl].
Qed.

(** X19.  In every store reached from the empty one, each Record is read
    back by its key: [getKey] on the key of a Record of the table returns
    the value of that very Record, and no error. *)
Theorem stored_record_is_read (ops : list Op) (init : DB) (t : Table) (r : Row) :
  init = no_table \/ init = empty_table ->
  postboard_kvs (run weight ops init) = Some t ->
  In r t ->
  getKey weight (k r) (run weight ops init) = (v r, None).
Proof.
  intros Hinit Ht Hr.
  assert (Hu : unique_keys weight (run weight ops init)).
  { apply run_unique. destruct Hinit as [-> | ->]; [exact I | constructor]. }
  unfold unique_keys in Hu. rewrite Ht in Hu.
  unfold getKey, query_select_v. rewrite Ht.
  now rewrite (select_v_unique t r Hu Hr).
Qed.

(** X20.  In every store reached from the empty one, [listKeysWithPrefix]
    returns no key twice. *)
Theorem listed_keys_distinct (ops : list Op) (init : DB) (prefix : string) :
  init = no_table \/ init = empty_table ->
  NoDup (fst (listKeysWithPrefix weight prefix (run weight ops init))).
Proof.
  intros Hinit.
  assert (Hu : unique_keys weight (run weight ops init)).
  { apply run_unique. destruct Hinit as [-> | ->]; [exact I | constructor]. }
  unfold unique_keys in Hu.
  destruct (postboard_kvs (run weight ops init)) as [t|] eqn:Ht.
  - rewrite (listKeysWithPrefix_table weight _ _ _ Ht). cbn [fst].
    unfold select_k_like. apply NoDup_firstn, NoDup_map_filter.
    rewrite <- (map_map k (sort_key weight)) in Hu.
    now apply NoDup_map_inv in Hu.
  - rewrite (listKeysWithPrefix_no_table weight _ _ Ht). constructor.
Qed.

End Store.

(** * Properties of the configuration file *)

Section ConfigurationFile.

Variable json_encode : Config -> string.
Variable json_decode : string -> Config.

Variable dsn_ok : string -> bool.

Lemma file_write_file (path content p : string) (fs : FS) :
  file (write_file path content fs) p
  = if String.eqb p path then Some (Content content) else file fs p.
Proof. reflexivity. Qed.


Lemma loadConfig_written (scanned path content : string) (fs : FS) :
  loadConfig json_encode json_decode scanned path (write_file path content fs)
  = (write_file path content fs, "", (Some (json_decode content), None)).
Proof.
  unfold loadConfig, stat_not_exist, os_Open.
  now rewrite file_write_file, String.eqb_refl.
Qed.


(** X18.  [pb config] on a configuration file that can be read and
    rewritten and holds a connection string the driver parses: the start
    of [main] does not prompt, the [Func] of [config] prompts once and
    replaces the file with the word read from standard input, and,
    provided JSON reads the new configuration back as written, the next
    [loadConfig] returns the new connection string without prompting. *)
Theorem main_config_replaces (word scanned' path content : string)
        (stdin : list string) (fs : FS) :
  file fs path = Some (Content content) ->
  dsn_ok (DSN (json_decode content)) = true ->
  locked fs path = false ->
  json_decode (json_encode {| DSN := word |}) = {| DSN := word |} ->
  let fs1 := write_file path (json_encode {| DSN := word |}) fs in
  main_config json_encode json_decode dsn_ok (word :: stdin) path fs
  = (fs1, prompt, inl None)
  /\ loadConfig json_encode json_decode scanned' path fs1
     = (fs1, "", (Some {| DSN := word |}, None)).
Proof.
  intros Hf Hd Hl Hj. cbv zeta. split.
  - unfold main_config, main_open, loadConfig, stat_not_exist, os_Open.
    rewrite Hf, Hd. cbn [hd].
    unfold config_Func, readConfigFromStdin, saveConfigToFile, can_create.
    now rewrite Hf, Hl.
  - now rewrite loadConfig_written, Hj.
Qed.


End ConfigurationFile.

(** * The theorems at concrete stores *)

Lemma put_put_get_witness :
  let r1 := putKeyValue binary 1 "foo" (bytes_of_string "bar") empty_table in
  let r2 := putKeyValue binary 2 "foo" blob (fst r1) in
  snd r1 = None /\ snd r2 = None /\ getKey binary "foo" (fst r2) = (blob, None).
Proof.
  apply (put_put_get binary 1 2 "foo" (bytes_of_string "bar") blob
                     empty_table []).
  - reflexivity.
  - discriminate.
  - reflexivity.
  - simpl; lia.
  - simpl; lia.
  - simpl; lia.
Defined.


Lemma listed_key_matches_witness :
  exists t r,
    postboard_kvs fruit = Some t /\ In r t /\ k r = "apple"
    /\ like binary "a%" "apple" = true
    /\ (plain "a" = true ->
        String.prefix (sort_key binary "a") (sort_key binary "apple") = true).
Proof.
  apply (listed_key_matches binary "a" "apple" fruit).
  simpl. left. reflexivity.
Defined.

Lemma overwrite_keeps_created_at_witness :
  exists t',
    postboard_kvs {| postboard_kvs := Some [row "foo" "baz" 1] |} = Some t'
    /\ Forall2
         (fun old new =>
            if Sql.key_eqb binary (k old) "foo"
            then k new = k old /\ v new = bytes_of_string "baz"
                 /\ created_at new = created_at old
            else new = old)
         [row "foo" "bar" 1] t'.
Proof.
  apply (overwrite_keeps_created_at binary 20 "foo" (bytes_of_string "baz")
           foo_bar _ [row "foo" "bar" 1] (row "foo" "bar" 1)).
  - reflexivity.
  - simpl. left. reflexivity.
  - reflexivity.
  - reflexivity.
Defined.

Lemma one_record_per_key_witness :
  NoDup (map k [row "foo" "baz" 1])
  /\ forall now key value,
       has_record binary key (run binary session no_table) = true ->
       let r := putKeyValue binary now key value (run binary session no_table) in
       row_count (fst r) = List.length [row "foo" "baz" 1]
       /\ unique_keys binary (fst r)
       /\ (snd r = None ->
           getKey binary key (fst r) = (value, None)
           /\ exists t',
                postboard_kvs (fst r) = Some t'
                /\ Forall2
                     (fun old new =>
                        if Sql.key_eqb binary (k old) key
                        then k new = k old /\ v new = value
                             /\ created_at new = created_at old
                        else new = old)
                     [row "foo" "baz" 1] t').
Proof.
  apply (one_record_per_key binary session no_table [row "foo" "baz" 1]).
  - left. reflexivity.
  - reflexivity.
Defined.

(** * Where the claims as written fail *)

(** C1 as written: a non-empty key of 256 characters does not fit column
    [k]; both writes are refused and the key cannot be read back. *)
Lemma put_put_get_long_key :
  key256 <> ""
  /\ putKeyValue binary 1 key256 (bytes_of_string "bar") empty_table
     = (empty_table, Some (MySQLError 1406))
  /\ putKeyValue binary 2 key256 (bytes_of_string "baz") empty_table
     = (empty_table, Some (MySQLError 1406))
  /\ getKey binary key256 empty_table = ([], Some ErrNoRows).
Proof.
  split; [discriminate|]. repeat split; vm_compute; reflexivity.
Qed.


(** C2 as written: "apple" is listed for the prefix "a", and its value
    "red" does not start with "a". *)
Lemma listed_value_not_prefixed :
  listKeysWithPrefix binary "a" fruit = (["apple"], None)
  /\ getKey binary "apple" fruit = (bytes_of_string "red", None)
  /\ bytes_has_prefix (bytes_of_string "a") (bytes_of_string "red") = false.
Proof. repeat split. Qed.

(** C5 as written: the Store operation takes the empty key, returns no
    error and writes a Record. *)
Lemma put_empty_key_writes :
  putKeyValue binary 1 "" (bytes_of_string "bar") empty_table
  = ({| postboard_kvs := Some [row "" "bar" 1] |}, None).
Proof. reflexivity. Qed.

(** The same three stores under the case-insensitive collation. *)
Lemma put_put_get_long_key_ci :
  putKeyValue ascii_ci 1 key256 (bytes_of_string "bar") empty_table
  = (empty_table, Some (MySQLError 1406))
  /\ getKey ascii_ci key256 empty_table = ([], Some ErrNoRows).
Proof. split; vm_compute; reflexivity. Qed.

Lemma listed_value_not_prefixed_ci :
  listKeysWithPrefix ascii_ci "a" fruit = (["apple"], None)
  /\ getKey ascii_ci "apple" fruit = (bytes_of_string "red", None).
Proof. split; reflexivity. Qed.

Lemma put_empty_key_writes_ci :
  putKeyValue ascii_ci 1 "" (bytes_of_string "bar") empty_table
  = ({| postboard_kvs := Some [row "" "bar" 1] |}, None).
Proof. reflexivity. Qed.

(** * Scenarios *)

Example list_a_fruits :
  listKeysWithPrefix binary "a" three_fruits = (["apple"; "apricot"], None).
Proof. reflexivity. Qed.

Example set_get_scenario :
  let db1 := pb_set 1 "foo" "bar" empty_table in
  let db2 := pb_set 2 "foo" "baz" db1 in
  snd (fst (get_cmd binary None "foo" db1)) = "bar" ++ nl
  /\ snd (fst (get_cmd binary None "foo" db2)) = "baz" ++ nl
  /\ snd (fst (get_cmd binary (Some true) "foo*" db2)) = "foo" ++ nl
  /\ db2 = {| postboard_kvs := Some [row "foo" "baz" 1] |}.
Proof. repeat split. Qed.

(** Nothing in [main.go] calls [prepareDatabase]: on a database without
    the table every command fails with the server's error. *)
Example commands_without_table :
  set_Func binary 1 "" "foo" "bar" no_table
  = (no_table, "", Some (MySQLError ER_NO_SUCH_TABLE))
  /\ get_cmd binary None "foo" no_table
     = (no_table, "", Some (MySQLError ER_NO_SUCH_TABLE))
  /\ get_cmd binary None "foo*" no_table
     = (no_table, "", Some (MySQLError ER_NO_SUCH_TABLE)).
Proof. repeat split. Qed.

(** A prefix that ends with the escape character turns the [%] that
    [listKeysWithPrefix] appends into a literal one. *)
Example escaped_percent :
  let db := pb_set 2 "a%" "2" (pb_set 1 "ab" "1" empty_table) in
  listKeysWithPrefix binary "a\" db = (["a%"], None)
  /\ listKeysWithPrefix binary "a" db = (["a%"; "ab"], None).
Proof. split; reflexivity. Qed.

(** Column [k] counts characters: a key of 200 two-byte characters (400
    bytes) is stored, one of 256 such characters is refused, and so is a
    key that is not well-formed text. *)
Example keys_count_characters :
  let e_acute := String (ascii_of_nat 195) (String (ascii_of_nat 169) "") in
  let key200 := String.concat "" (repeat e_acute 200) in
  let key256e := String.concat "" (repeat e_acute 256) in
  len key200 = 400
  /\ snd (putKeyValue binary 1 key200 (bytes_of_string "bar") empty_table)
     = None
  /\ getKey binary key200
            (fst (putKeyValue binary 1 key200 (bytes_of_string "bar")
                              empty_table))
     = (bytes_of_string "bar", None)
  /\ snd (putKeyValue binary 1 key256e (bytes_of_string "bar") empty_table)
     = Some (MySQLError 1406)
  /\ snd (putKeyValue binary 1 (String (ascii_of_nat 255) "")
                      (bytes_of_string "bar") empty_table)
     = Some (MySQLError 1366).
Proof. repeat split; vm_compute; reflexivity. Qed.

(** Under a case-insensitive collation "Foo" and "foo" are one key. *)
Example one_key_up_to_case :
  let r1 := putKeyValue ascii_ci 1 "Foo" (bytes_of_string "bar") empty_table in
  let r2 := putKeyValue ascii_ci 2 "foo" (bytes_of_string "baz") (fst r1) in
  fst r2 = {| postboard_kvs := Some [row "Foo" "baz" 1] |}
  /\ getKey ascii_ci "FOO" (fst r2) = (bytes_of_string "baz", None).
Proof. split; reflexivity. Qed.

(** * The further properties at concrete stores *)

Lemma getKey_after_prepareDatabase_witness :
  getKey binary "foo" (fst (prepareDatabase no_table)) = ([], Some ErrNoRows).
Proof.
  apply (getKey_after_prepareDatabase binary "foo" no_table). reflexivity.
Defined.


Lemma records_never_removed_witness :
  (row_count foo_bar <= row_count (run binary session foo_bar))%nat
  /\ exists t' r',
       postboard_kvs (run binary session foo_bar) = Some t' /\ In r' t'
       /\ k r' = k (row "foo" "bar" 1)
       /\ created_at r' = created_at (row "foo" "bar" 1).
Proof.
  apply (records_never_removed binary session foo_bar [row "foo" "bar" 1]).
  - reflexivity.
  - simpl. left. reflexivity.
Defined.


Lemma records_within_columns_witness :
  char_count (k (row "foo" "baz" 1)) <= 255
  /\ Z.of_nat (List.length (v (row "foo" "baz" 1))) <= 65535.
Proof.
  apply (records_within_columns binary session no_table
           [row "foo" "baz" 1] (row "foo" "baz" 1)).
  - left. reflexivity.
  - reflexivity.
  - simpl. left. reflexivity.
Defined.

Lemma list_plain_prefix_witness :
  In "apricot" (fst (listKeysWithPrefix binary "ap" three_fruits))
  <-> exists r, In r fruit_rows /\ k r = "apricot"
                /\ String.prefix (sort_key binary "ap")
                                 (sort_key binary "apricot") = true.
Proof.
  apply (list_plain_prefix binary "ap" "apricot" three_fruits fruit_rows).
  - reflexivity.
  - reflexivity.
  - vm_compute. lia.
Defined.

Lemma list_empty_prefix_witness :
  listKeysWithPrefix binary "" three_fruits
  = (firstn 1000 (map k fruit_rows), None).
Proof.
  apply (list_empty_prefix binary three_fruits fruit_rows). reflexivity.
Defined.

Lemma list_prefix_trailing_backslash_witness :
  Sql.key_eqb binary ("a" ++ "%") "a%" = true.
Proof.
  apply (list_prefix_trailing_backslash binary "a" "a%"
           {| postboard_kvs := Some [row "a%" "2" 2; row "ab" "1" 1] |}).
  - reflexivity.
  - simpl. left. reflexivity.
Defined.

Lemma listed_key_readable_witness :
  exists value, getKey binary "apple" three_fruits = (value, None).
Proof.
  apply (listed_key_readable binary "a" "apple" three_fruits).
  simpl. left. reflexivity.
Defined.

Lemma get_wildcard_output_witness :
  get_Func binary false ("a" ++ "*") three_fruits
  = (three_fruits, "apple=red" ++ nl ++ "apricot=orange" ++ nl, None).
Proof.
  apply (get_wildcard_output binary false "a" three_fruits fruit_rows).
  reflexivity.
Defined.

Lemma set_then_get_witness :
  let r := set_Func binary 1 "bar" "foo" "" empty_table in
  snd r = None
  /\ snd (fst r) = ""
  /\ get_Func binary true "foo" (fst (fst r))
     = (fst (fst r), (if String.eqb "" "" then "bar" else "") ++ nl, None).
Proof.
  apply (set_then_get binary 1 "bar" "foo" "" true empty_table []).
  - reflexivity.
  - discriminate.
  - discriminate.
  - reflexivity.
  - simpl; lia.
  - unfold len; simpl; lia.
Defined.

Lemma get_missing_key_witness :
  get_Func binary false "cherry" three_fruits
  = (three_fruits, "", Some ErrNoRows).
Proof.
  apply (get_missing_key binary false "cherry" three_fruits fruit_rows).
  - reflexivity.
  - discriminate.
  - discriminate.
  - reflexivity.
Defined.


Lemma main_config_replaces_witness :
  let fs0 := write_file config_path (quoted_encode {| DSN := "old/" |}) no_file in
  let fs1 := write_file config_path (quoted_encode {| DSN := dsn |}) fs0 in
  main_config quoted_encode quoted_decode slash_dsn [dsn] config_path fs0
  = (fs1, prompt, inl None)
  /\ loadConfig quoted_encode quoted_decode "" config_path fs1
     = (fs1, "", (Some {| DSN := dsn |}, None)).
Proof.
  apply (main_config_replaces quoted_encode quoted_decode slash_dsn dsn ""
           config_path (quoted_encode {| DSN := "old/" |}) []
           (write_file config_path (quoted_encode {| DSN := "old/" |}) no_file)).
  - reflexivity.
  - reflexivity.
  - reflexivity.
  - reflexivity.
Defined.


Lemma stored_record_is_read_witness :
  getKey binary (k (row "foo" "baz" 1)) (run binary session no_table)
  = (v (row "foo" "baz" 1), None).
Proof.
  apply (stored_record_is_read binary session no_table [row "foo" "baz" 1]).
  - left. reflexivity.
  - reflexivity.
  - simpl. left. reflexivity.
Defined.

Lemma listed_keys_distinct_witness :
  NoDup (fst (listKeysWithPrefix binary "f" (run binary session no_table))).
Proof.
  apply (listed_keys_distinct binary session no_table "f").
  left. reflexivity.
Defined.
